(** * Inspector callback stubs (src/engine/inspector_stubs.cpp)

    The translation unit defines nine [extern "C"] callbacks required by the
    v8-zig bindings.  Every body is empty, except [generateUniqueId], whose
    body is [return 0;].

    The callbacks are embedded as programs of a small effect monad [prog]
    whose effects are the ones a C++ function body could perform on its
    caller: reading and writing memory through a pointer, writing to the
    output stream, and throwing.  An interpreter [run] executes a program
    against a [World] and records every access in a trace, so that
    "does not read", "does not write" and "does not print" are statements
    about the run and not only about the final state. *)

From Stdlib Require Import ZArith List Lia Strings.Byte.
From stdpp Require Import gmap.

Local Open Scope Z_scope.

(** ** C types at the FFI boundary *)

Module Abi.

(** Raw pointers ([T*], [void*], [const char*]) are addresses. *)
Definition ptr : Type := Z.
Definition NULL : ptr := 0.

(** [int], [unsigned], [size_t] and [int64_t] values. *)
Definition int : Type := Z.
Definition unsigned : Type := Z.
Definition size_t : Type := Z.
Definition int64_t : Type := Z.

End Abi.
Import Abi.

(** ** The world outside a stack frame *)

(** Everything a callback could touch besides its own parameters: the
    addressable memory (heap, globals, the caller's buffers) and the process
    output stream. *)
Record World : Type := mkWorld {
  heap : gmap Z byte;
  output : list byte
}.

(** Reads the [n] bytes of the buffer starting at [p]; [None] when some byte
    of the range is unmapped. *)
Fixpoint read_bytes (w : World) (p : ptr) (n : nat) : option (list byte) :=
  match n with
  | O => Some []
  | S n' =>
      match heap w !! p, read_bytes w (p + 1) n' with
      | Some b, Some bs => Some (b :: bs)
      | _, _ => None
      end
  end.

(** ** Effects *)

Inductive exn : Type :=
| Exception (what : list byte).

Inductive prog (A : Type) : Type :=
| Ret (a : A)
| Load (p : ptr) (k : byte -> prog A)
| Store (p : ptr) (b : byte) (k : prog A)
| Emit (b : byte) (k : prog A)
| Throw (e : exn).

Arguments Ret {A} a.
Arguments Load {A} p k.
Arguments Store {A} p b k.
Arguments Emit {A} b k.
Arguments Throw {A} e.

Fixpoint bind {A B : Type} (m : prog A) (f : A -> prog B) : prog B :=
  match m with
  | Ret a => f a
  | Load p k => Load p (fun b => bind (k b) f)
  | Store p b k => Store p b (bind k f)
  | Emit b k => Emit b (bind k f)
  | Throw e => Throw e
  end.

Declare Scope prog_scope.
Delimit Scope prog_scope with prog.
Notation "x <- m ;; k" := (bind m (fun x => k))
  (at level 100, m at next level, right associativity) : prog_scope.
Notation "m ;; k" := (bind m (fun _ => k))
  (at level 100, right associativity) : prog_scope.
Local Open Scope prog_scope.

(** ** Running a program *)

Inductive outcome (A : Type) : Type :=
| Returned (a : A)
| Thrown (e : exn)
| Crashed.

Arguments Returned {A} a.
Arguments Thrown {A} e.
Arguments Crashed {A}.

Inductive access : Type :=
| Rd (p : ptr)
| Wr (p : ptr)
| Out (b : byte).

Record result (A : Type) : Type := mkResult {
  res : outcome A;
  final : World;
  trace : list access
}.

Arguments mkResult {A} res final trace.
Arguments res {A} r.
Arguments final {A} r.
Arguments trace {A} r.

(** Prepends one access to the trace of the rest of the run. *)
Definition logged {A : Type} (a : access) (r : result A) : result A :=
  mkResult (res r) (final r) (a :: trace r).

(** An access to an unmapped address (the null pointer included, whenever the
    world leaves it unmapped) crashes the run. *)
Fixpoint run {A : Type} (m : prog A) (w : World) : result A :=
  match m with
  | Ret a => mkResult (Returned a) w []
  | Load p k =>
      match heap w !! p with
      | Some b => logged (Rd p) (run (k b) w)
      | None => mkResult Crashed w [Rd p]
      end
  | Store p b k =>
      match heap w !! p with
      | Some _ => logged (Wr p) (run k (mkWorld (<[p := b]> (heap w)) (output w)))
      | None => mkResult Crashed w [Wr p]
      end
  | Emit b k => logged (Out b) (run k (mkWorld (heap w) (output w ++ [b])))
  | Throw e => mkResult (Thrown e) w []
  end.

(** ** The callbacks *)

(** Client callback stubs. *)

Definition v8_inspector__Client__IMPL__generateUniqueId
    (self : ptr) (data : ptr) : prog int64_t :=
  Ret 0.

Definition v8_inspector__Client__IMPL__runMessageLoopOnPause
    (self : ptr) (data : ptr) (contextGroupId : int) : prog unit :=
  Ret tt.

Definition v8_inspector__Client__IMPL__quitMessageLoopOnPause
    (self : ptr) (data : ptr) : prog unit :=
  Ret tt.

Definition v8_inspector__Client__IMPL__runIfWaitingForDebugger
    (self : ptr) (data : ptr) (contextGroupId : int) : prog unit :=
  Ret tt.

Definition v8_inspector__Client__IMPL__consoleAPIMessage
    (self : ptr) (data : ptr) (contextGroupId : int) (level : int)
    (message : ptr) (url : ptr) (lineNumber : unsigned)
    (columnNumber : unsigned) (stackTrace : ptr) : prog unit :=
  Ret tt.

Definition v8_inspector__Client__IMPL__ensureDefaultContextInGroup
    (self : ptr) (data : ptr) (contextGroupId : int) : prog unit :=
  Ret tt.

(** Channel callback stubs. *)

Definition v8_inspector__Channel__IMPL__sendResponse
    (self : ptr) (data : ptr) (callId : int) (message : ptr)
    (length : size_t) : prog unit :=
  Ret tt.

Definition v8_inspector__Channel__IMPL__sendNotification
    (self : ptr) (data : ptr) (msg : ptr) (length : size_t) : prog unit :=
  Ret tt.

Definition v8_inspector__Channel__IMPL__flushProtocolNotifications
    (self : ptr) (data : ptr) : prog unit :=
  Ret tt.

(** ** The stub table *)

(** The nine entry points of the [extern "C"] block. *)
Inductive stub : Type :=
| generateUniqueId
| runMessageLoopOnPause
| quitMessageLoopOnPause
| runIfWaitingForDebugger
| consoleAPIMessage
| ensureDefaultContextInGroup
| sendResponse
| sendNotification
| flushProtocolNotifications.

(** A call: an entry point together with its argument tuple. *)
Inductive call : Type :=
| CallGenerateUniqueId (self data : ptr)
| CallRunMessageLoopOnPause (self data : ptr) (contextGroupId : int)
| CallQuitMessageLoopOnPause (self data : ptr)
| CallRunIfWaitingForDebugger (self data : ptr) (contextGroupId : int)
| CallConsoleAPIMessage (self data : ptr) (contextGroupId level : int)
    (message url : ptr) (lineNumber columnNumber : unsigned) (stackTrace : ptr)
| CallEnsureDefaultContextInGroup (self data : ptr) (contextGroupId : int)
| CallSendResponse (self data : ptr) (callId : int) (message : ptr)
    (length : size_t)
| CallSendNotification (self data : ptr) (msg : ptr) (length : size_t)
| CallFlushProtocolNotifications (self data : ptr).

(** What a call hands back to the engine: an [int64_t], or nothing. *)
Inductive value : Type :=
| VInt64 (z : int64_t)
| VVoid.

Definition stub_of (c : call) : stub :=
  match c with
  | CallGenerateUniqueId _ _ => generateUniqueId
  | CallRunMessageLoopOnPause _ _ _ => runMessageLoopOnPause
  | CallQuitMessageLoopOnPause _ _ => quitMessageLoopOnPause
  | CallRunIfWaitingForDebugger _ _ _ => runIfWaitingForDebugger
  | CallConsoleAPIMessage _ _ _ _ _ _ _ _ _ => consoleAPIMessage
  | CallEnsureDefaultContextInGroup _ _ _ => ensureDefaultContextInGroup
  | CallSendResponse _ _ _ _ _ => sendResponse
  | CallSendNotification _ _ _ _ => sendNotification
  | CallFlushProtocolNotifications _ _ => flushProtocolNotifications
  end.

(** The declared return type of each entry point is [void], except for
    [generateUniqueId], which is declared [int64_t]. *)
Definition returns_void (s : stub) : bool :=
  match s with
  | generateUniqueId => false
  | _ => true
  end.

(** The pointer-typed parameters of a call, in declaration order. *)
Definition pointer_args (c : call) : list ptr :=
  match c with
  | CallGenerateUniqueId self data => [self; data]
  | CallRunMessageLoopOnPause self data _ => [self; data]
  | CallQuitMessageLoopOnPause self data => [self; data]
  | CallRunIfWaitingForDebugger self data _ => [self; data]
  | CallConsoleAPIMessage self data _ _ message url _ _ stackTrace =>
      [self; data; message; url; stackTrace]
  | CallEnsureDefaultContextInGroup self data _ => [self; data]
  | CallSendResponse self data _ message _ => [self; data; message]
  | CallSendNotification self data msg _ => [self; data; msg]
  | CallFlushProtocolNotifications self data => [self; data]
  end.

(** The engine invoking an entry point of the table. *)
Definition invoke (c : call) : prog value :=
  match c with
  | CallGenerateUniqueId self data =>
      id <- v8_inspector__Client__IMPL__generateUniqueId self data ;;
      Ret (VInt64 id)
  | CallRunMessageLoopOnPause self data contextGroupId =>
      v8_inspector__Client__IMPL__runMessageLoopOnPause
        self data contextGroupId ;;
      Ret VVoid
  | CallQuitMessageLoopOnPause self data =>
      v8_inspector__Client__IMPL__quitMessageLoopOnPause self data ;;
      Ret VVoid
  | CallRunIfWaitingForDebugger self data contextGroupId =>
      v8_inspector__Client__IMPL__runIfWaitingForDebugger
        self data contextGroupId ;;
      Ret VVoid
  | CallConsoleAPIMessage self data contextGroupId level message url
      lineNumber columnNumber stackTrace =>
      v8_inspector__Client__IMPL__consoleAPIMessage
        self data contextGroupId level message url lineNumber columnNumber
        stackTrace ;;
      Ret VVoid
  | CallEnsureDefaultContextInGroup self data contextGroupId =>
      v8_inspector__Client__IMPL__ensureDefaultContextInGroup
        self data contextGroupId ;;
      Ret VVoid
  | CallSendResponse self data callId message length =>
      v8_inspector__Channel__IMPL__sendResponse
        self data callId message length ;;
      Ret VVoid
  | CallSendNotification self data msg length =>
      v8_inspector__Channel__IMPL__sendNotification self data msg length ;;
      Ret VVoid
  | CallFlushProtocolNotifications self data =>
      v8_inspector__Channel__IMPL__flushProtocolNotifications self data ;;
      Ret VVoid
  end.

(** The engine invoking the same entry point [n] times in a row with the
    same arguments, collecting what each call hands back. *)
Fixpoint invoke_n (n : nat) (c : call) : prog (list value) :=
  match n with
  | O => Ret []
  | S n' =>
      v <- invoke c ;;
      vs <- invoke_n n' c ;;
      Ret (v :: vs)
  end.

(** The engine invoking entry points of the table one after the other, each
    with its own argument tuple, collecting what each call hands back. *)
Fixpoint invoke_all (cs : list call) : prog (list value) :=
  match cs with
  | [] => Ret []
  | c :: cs' =>
      v <- invoke c ;;
      vs <- invoke_all cs' ;;
      Ret (v :: vs)
  end.

(** The address touched by an access, if it is a memory access. *)
Definition touched (a : access) : option ptr :=
  match a with
  | Rd p => Some p
  | Wr p => Some p
  | Out _ => None
  end.

(** Whether a trace contains a read or a write at address [p]. *)
Definition dereferenced (t : list access) (p : ptr) : bool :=
  existsb (fun a => match touched a with
                    | Some q => Z.eqb q p
                    | None => false
                    end) t.

(** What follows a finished first part [r] of a run. *)
Definition followed_by {A B : Type} (r : result A) (f : A -> prog B) : result B :=
  match res r with
  | Returned a =>
      let r' := run (f a) (final r) in
      mkResult (res r') (final r') (trace r ++ trace r')
  | Thrown e => mkResult (Thrown e) (final r) (trace r)
  | Crashed => mkResult Crashed (final r) (trace r)
  end.

(** A program is silent with value [a] when, from every world, it returns
    [a], leaves the world as it found it and performs no access. *)
Definition silent {A : Type} (m : prog A) (a : A) : Prop :=
  forall w : World, run m w = mkResult (Returned a) w [].

(** ** The interpreter and sequencing *)

Section RunBind.

Context {A B : Type}.

Lemma followed_by_logged (a : access) (r : result A) (f : A -> prog B) :
  followed_by (logged a r) f = logged a (followed_by r f).
Proof.
  unfold followed_by, logged; simpl.
  destruct (res r); reflexivity.
Qed.

Lemma run_bind (m : prog A) (f : A -> prog B) (w : World) :
  run (bind m f) w = followed_by (run m w) f.
Proof.
  revert w.
  induction m as [a | p k IH | p b k IH | b k IH | e]; intros w; simpl.
  - unfold followed_by; simpl. destruct (run (f a) w); reflexivity.
  - destruct (heap w !! p) as [b|]; [|reflexivity].
    rewrite IH. symmetry. apply followed_by_logged.
  - destruct (heap w !! p) as [b0|]; [|reflexivity].
    rewrite IH. symmetry. apply followed_by_logged.
  - rewrite IH. symmetry. apply followed_by_logged.
  - reflexivity.
Qed.

End RunBind.

Lemma silent_ret {A : Type} (a : A) : silent (Ret a) a.
Proof. intros w; reflexivity. Qed.

Lemma silent_bind {A B : Type} (m : prog A) (f : A -> prog B) (a : A) (b : B) :
  silent m a -> silent (f a) b -> silent (bind m f) b.
Proof.
  intros Hm Hf w.
  rewrite run_bind, Hm. unfold followed_by; simpl.
  rewrite Hf. reflexivity.
Qed.

(** The model tells a well-behaved program from an ill-behaved one:
    dereferencing an unmapped pointer crashes, a store changes the heap,
    an emitted byte reaches the output, a throw is reported. *)
Lemma load_unmapped_crashes {A : Type} (p : ptr) (k : byte -> prog A) (w : World) :
  heap w !! p = None -> res (run (Load p k) w) = Crashed.
Proof. intros H; simpl; rewrite H; reflexivity. Qed.

Lemma store_mapped_writes (p : ptr) (b b0 : byte) (w : World) :
  heap w !! p = Some b0 ->
  heap (final (run (Store p b (Ret tt)) w)) !! p = Some b.
Proof. intros H; simpl; rewrite H; simpl. apply lookup_insert_eq. Qed.

Lemma emit_writes_output (b : byte) (w : World) :
  output (final (run (Emit b (Ret tt)) w)) = output w ++ [b].
Proof. reflexivity. Qed.

Lemma throw_is_thrown {A : Type} (e : exn) (w : World) :
  res (run (@Throw A e) w) = Thrown e.
Proof. reflexivity. Qed.

(** ** Every call is a bare return *)

(** What each entry point hands back, read off its [return] statement (or
    the absence of one). *)
Lemma invoke_ret (c : call) :
  invoke c = Ret (match stub_of c with
                  | generateUniqueId => VInt64 0
                  | _ => VVoid
                  end).
Proof. destruct c; reflexivity. Qed.

Lemma invoke_silent (c : call) :
  silent (invoke c) (match stub_of c with
                     | generateUniqueId => VInt64 0
                     | _ => VVoid
                     end).
Proof. rewrite invoke_ret. apply silent_ret. Qed.

Lemma invoke_void (c : call) :
  returns_void (stub_of c) = true -> silent (invoke c) VVoid.
Proof.
  intros Hv. pose proof (invoke_silent c) as Hs.
  destruct (stub_of c); try discriminate Hv; exact Hs.
Qed.

Lemma invoke_n_silent (n : nat) (c : call) :
  silent (invoke_n n c)
         (repeat (match stub_of c with
                  | generateUniqueId => VInt64 0
                  | _ => VVoid
                  end) n).
Proof.
  induction n as [|n IH]; simpl.
  - apply silent_ret.
  - eapply silent_bind; [apply invoke_silent|].
    eapply silent_bind; [apply IH|].
    apply silent_ret.
Qed.

(** ** Properties of the stub table *)

(** C1: every call of [generateUniqueId], whatever the client handle and the
    context pointer and whatever the world it is called in, returns exactly
    the constant 0 (and does nothing else). *)
Theorem generateUniqueId_returns_zero (self data : ptr) (w : World) :
  run (v8_inspector__Client__IMPL__generateUniqueId self data) w
  = mkResult (Returned 0) w [].
Proof. reflexivity. Qed.

(** C2: a call of any of the eight [void] stubs, with any arguments,
    completes normally (it neither throws nor crashes), and every buffer of
    the heap, the input buffers in particular, holds after the call the bytes
    it held before it; no write is attempted at any address. *)
Theorem void_stubs_complete_without_mutation (c : call) (w : World) :
  returns_void (stub_of c) = true ->
  res (run (invoke c) w) = Returned VVoid /\
  heap (final (run (invoke c) w)) = heap w /\
  (forall (p : ptr) (n : nat),
      read_bytes (final (run (invoke c) w)) p n = read_bytes w p n) /\
  (forall p : ptr, dereferenced (trace (run (invoke c) w)) p = false).
Proof.
  intros Hv. rewrite (invoke_void c Hv w); simpl.
  repeat split; intros; reflexivity.
Qed.

Lemma void_stubs_complete_without_mutation_witness :
  returns_void (stub_of (CallSendNotification 8 16 4096 2)) = true /\
  res (run (invoke (CallSendNotification 8 16 4096 2))
           (mkWorld {[ 4096 := x7b; 4097 := x7d ]} [])) = Returned VVoid /\
  read_bytes
    (final (run (invoke (CallSendNotification 8 16 4096 2))
                (mkWorld {[ 4096 := x7b; 4097 := x7d ]} []))) 4096 2
  = read_bytes (mkWorld {[ 4096 := x7b; 4097 := x7d ]} []) 4096 2.
Proof.
  split; [reflexivity|].
  pose proof (void_stubs_complete_without_mutation
                (CallSendNotification 8 16 4096 2)
                (mkWorld {[ 4096 := x7b; 4097 := x7d ]} [])
                eq_refl) as (Hres & _ & Hbuf & _).
  split; [exact Hres | exact (Hbuf 4096 2%nat)].
Defined.

(** C3: [sendResponse] called with call id 42, a message buffer holding the
    two bytes of the text {} and length 2 returns normally, appends nothing
    to the output, leaves the world as it was, and raises no exception. *)
Theorem sendResponse_scenario (self data message : ptr) (w : World) :
  read_bytes w message 2 = Some [x7b; x7d] ->
  res (run (v8_inspector__Channel__IMPL__sendResponse self data 42 message 2) w)
  = Returned tt /\
  output (final (run (v8_inspector__Channel__IMPL__sendResponse
                        self data 42 message 2) w)) = output w /\
  final (run (v8_inspector__Channel__IMPL__sendResponse
                self data 42 message 2) w) = w /\
  trace (run (v8_inspector__Channel__IMPL__sendResponse
                self data 42 message 2) w) = [] /\
  (forall e : exn,
      res (run (v8_inspector__Channel__IMPL__sendResponse
                  self data 42 message 2) w) <> Thrown e).
Proof.
  intros _. simpl. repeat split. intros e; discriminate.
Qed.

Lemma sendResponse_scenario_witness :
  read_bytes (mkWorld {[ 4096 := x7b; 4097 := x7d ]} []) 4096 2
  = Some [x7b; x7d] /\
  res (run (v8_inspector__Channel__IMPL__sendResponse 8 16 42 4096 2)
           (mkWorld {[ 4096 := x7b; 4097 := x7d ]} [])) = Returned tt /\
  final (run (v8_inspector__Channel__IMPL__sendResponse 8 16 42 4096 2)
             (mkWorld {[ 4096 := x7b; 4097 := x7d ]} []))
  = mkWorld {[ 4096 := x7b; 4097 := x7d ]} [].
Proof.
  assert (Hbuf : read_bytes (mkWorld {[ 4096 := x7b; 4097 := x7d ]} []) 4096 2
                 = Some [x7b; x7d]) by (vm_compute; reflexivity).
  split; [exact Hbuf|].
  pose proof (sendResponse_scenario 8 16 4096
                (mkWorld {[ 4096 := x7b; 4097 := x7d ]} []) Hbuf)
    as (Hres & _ & Hfin & _).
  split; [exact Hres | exact Hfin].
Defined.

(** C4: repetition is idempotent.  Calling any stub [n] times in a row with
    any argument tuple leaves the world and the (empty) trace of accesses
    exactly as a single call does, every one of the [n] calls hands back what
    a single call hands back, and a call placed before any other call does
    not change the run of that later call. *)
Theorem stubs_idempotent_under_repetition (c c' : call) (n : nat) (w : World) :
  final (run (invoke_n n c) w) = final (run (invoke c) w) /\
  trace (run (invoke_n n c) w) = trace (run (invoke c) w) /\
  (exists v : value,
      res (run (invoke c) w) = Returned v /\
      res (run (invoke_n n c) w) = Returned (repeat v n)) /\
  run (invoke c ;; invoke c') w = run (invoke c') w.
Proof.
  rewrite (invoke_n_silent n c w), (invoke_silent c w); simpl.
  repeat split.
  - eexists; split; reflexivity.
  - rewrite run_bind, (invoke_silent c w). unfold followed_by; simpl.
    destruct (run (invoke c') w); reflexivity.
Qed.

(** C5: no stub validates its inputs and no stub can fail.  Each call is the
    bare return of a result fixed by the entry point alone, and its only
    outcome, for every argument tuple and every world, is that normal return:
    never an exception, never a crash. *)
Theorem stubs_cannot_fail (c : call) (w : World) (o : outcome value) :
  invoke c = Ret (match stub_of c with
                  | generateUniqueId => VInt64 0
                  | _ => VVoid
                  end) /\
  (res (run (invoke c) w) = o <->
   o = Returned (match stub_of c with
                 | generateUniqueId => VInt64 0
                 | _ => VVoid
                 end)) /\
  (forall e : exn, res (run (invoke c) w) <> Thrown e) /\
  res (run (invoke c) w) <> Crashed.
Proof.
  split; [apply invoke_ret|].
  rewrite (invoke_silent c w); simpl.
  repeat split; try congruence; intros; discriminate.
Qed.

(** C6: a stub works within its own stack frame only.  A call performs no
    access at all, so no global or shared memory is read or written, no
    address, the handle arguments included, is dereferenced, nothing is
    printed, the world is left as it was, and what the call hands back is the
    same in any two worlds. *)
Theorem stubs_touch_nothing (c : call) (w w' : World) :
  trace (run (invoke c) w) = [] /\
  final (run (invoke c) w) = w /\
  forallb (fun p => negb (dereferenced (trace (run (invoke c) w)) p))
          (pointer_args c) = true /\
  (forall p : ptr, dereferenced (trace (run (invoke c) w)) p = false) /\
  res (run (invoke c) w) = res (run (invoke c) w').
Proof.
  rewrite (invoke_silent c w), (invoke_silent c w'); simpl.
  repeat split.
  induction (pointer_args c) as [|p ps IH]; [reflexivity | exact IH].
Qed.

(** C8: null pointers are tolerated.  In a world where the null address is
    unmapped (so that dereferencing it would crash), a call whose pointer
    arguments are all null still returns normally, and [generateUniqueId]
    called on null pointers still returns 0. *)
Theorem stubs_tolerate_null (c : call) (w : World) :
  heap w !! NULL = None ->
  Forall (fun p => p = NULL) (pointer_args c) ->
  (exists v : value, run (invoke c) w = mkResult (Returned v) w []) /\
  run (v8_inspector__Client__IMPL__generateUniqueId NULL NULL) w
  = mkResult (Returned 0) w [].
Proof.
  intros _ _. split; [|reflexivity].
  eexists. apply invoke_silent.
Qed.

Lemma stubs_tolerate_null_witness :
  heap (mkWorld ∅ []) !! NULL = None /\
  Forall (fun p => p = NULL)
         (pointer_args (CallConsoleAPIMessage NULL NULL 1 2 NULL NULL 3 4 NULL)) /\
  (exists v : value,
      run (invoke (CallConsoleAPIMessage NULL NULL 1 2 NULL NULL 3 4 NULL))
          (mkWorld ∅ [])
      = mkResult (Returned v) (mkWorld ∅ []) []) /\
  run (v8_inspector__Client__IMPL__generateUniqueId NULL NULL) (mkWorld ∅ [])
  = mkResult (Returned 0) (mkWorld ∅ []) [].
Proof.
  assert (Hnull : heap (mkWorld ∅ []) !! NULL = None) by reflexivity.
  assert (Hargs : Forall (fun p => p = NULL)
                    (pointer_args
                       (CallConsoleAPIMessage NULL NULL 1 2 NULL NULL 3 4 NULL)))
    by (simpl; repeat constructor).
  split; [exact Hnull|]. split; [exact Hargs|].
  exact (stubs_tolerate_null
           (CallConsoleAPIMessage NULL NULL 1 2 NULL NULL 3 4 NULL)
           (mkWorld ∅ []) Hnull Hargs).
Defined.

(** C9: [generateUniqueId] does not produce unique identifiers.  Any two
    calls, on equal or on different handles and context pointers, in equal or
    in different worlds, return equal values, both 0; so do two calls made
    one after the other. *)
Theorem generateUniqueId_not_unique
    (self1 data1 self2 data2 : ptr) (w1 w2 : World) :
  res (run (v8_inspector__Client__IMPL__generateUniqueId self1 data1) w1)
  = res (run (v8_inspector__Client__IMPL__generateUniqueId self2 data2) w2) /\
  res (run (v8_inspector__Client__IMPL__generateUniqueId self1 data1) w1)
  = Returned 0 /\
  res (run (id1 <- v8_inspector__Client__IMPL__generateUniqueId self1 data1 ;;
            id2 <- v8_inspector__Client__IMPL__generateUniqueId self2 data2 ;;
            Ret (id1, id2)) w1)
  = Returned (0, 0).
Proof. repeat split. Qed.

(** C10: a stub is deterministic and independent of all of its inputs.  Two
    invocations of the same entry point, on any two argument tuples and in
    any two worlds, hand back the same result and have the same (absent)
    effect: each leaves its world as it was and performs no access. *)
Theorem stubs_independent_of_inputs (c1 c2 : call) (w1 w2 : World) :
  stub_of c1 = stub_of c2 ->
  res (run (invoke c1) w1) = res (run (invoke c2) w2) /\
  trace (run (invoke c1) w1) = trace (run (invoke c2) w2) /\
  final (run (invoke c1) w1) = w1 /\
  final (run (invoke c2) w2) = w2 /\
  run (invoke c1) w1 = run (invoke c2) w1.
Proof.
  intros Hs.
  rewrite (invoke_silent c1 w1), (invoke_silent c2 w2), (invoke_silent c2 w1).
  rewrite Hs; simpl. repeat split.
Qed.

Lemma stubs_independent_of_inputs_witness :
  stub_of (CallConsoleAPIMessage 8 16 1 0 4096 4104 10 20 4112)
  = stub_of (CallConsoleAPIMessage 24 32 7 3 0 0 99 1 0) /\
  res (run (invoke (CallConsoleAPIMessage 8 16 1 0 4096 4104 10 20 4112))
           (mkWorld {[ 4096 := x7b; 4097 := x7d ]} []))
  = res (run (invoke (CallConsoleAPIMessage 24 32 7 3 0 0 99 1 0))
             (mkWorld ∅ [x7b])).
Proof.
  split; [reflexivity|].
  exact (proj1 (stubs_independent_of_inputs
                  (CallConsoleAPIMessage 8 16 1 0 4096 4104 10 20 4112)
                  (CallConsoleAPIMessage 24 32 7 3 0 0 99 1 0)
                  (mkWorld {[ 4096 := x7b; 4097 := x7d ]} [])
                  (mkWorld ∅ [x7b])
                  eq_refl)).
Defined.

(** ** Calls in sequence and inside a caller *)

Lemma followed_by_ext {A B : Type} (r : result A) (f g : A -> prog B) :
  (forall (a : A) (w : World), run (f a) w = run (g a) w) ->
  followed_by r f = followed_by r g.
Proof.
  intros Hfg. unfold followed_by.
  destruct (res r) as [a | e |]; [rewrite Hfg|..]; reflexivity.
Qed.

Lemma invoke_then {B : Type} (c : call) (m : prog B) :
  (invoke c ;; m) = m.
Proof. rewrite invoke_ret. reflexivity. Qed.

Lemma alone_results (cs : list call) (w : World) :
  Forall2 (fun c v => res (run (invoke c) w) = Returned v) cs
          (map (fun c => match stub_of c with
                         | generateUniqueId => VInt64 0
                         | _ => VVoid
                         end) cs).
Proof.
  induction cs as [|c cs IH]; simpl; constructor.
  - rewrite (invoke_silent c w). reflexivity.
  - exact IH.
Qed.

Lemma combine_with_results {A B : Type} (f : A -> B) (l : list A) :
  combine l (map f l) = map (fun a => (a, f a)) l.
Proof.
  induction l as [|a l IH]; simpl; [reflexivity|].
  rewrite IH. reflexivity.
Qed.

(** X1: any sequence of calls to the table, on any entry points and any
    argument tuples, in any world, returns normally with one result per call
    (0 for [generateUniqueId], nothing for the others), leaves the world as
    it was and performs no access. *)
Theorem call_sequence_is_silent (cs : list call) (w : World) :
  run (invoke_all cs) w
  = mkResult (Returned (map (fun c => match stub_of c with
                                       | generateUniqueId => VInt64 0
                                       | _ => VVoid
                                       end) cs)) w [].
Proof.
  revert w. induction cs as [|c cs IH]; intros w; cbn [invoke_all map].
  - reflexivity.
  - rewrite invoke_ret; cbn [bind].
    rewrite run_bind, IH. reflexivity.
Qed.

(** X2: the order in which the engine fires the callbacks does not matter.
    Two sequences holding the same calls in different orders leave the same
    world and the same trace, and every call hands back, at whatever place
    of either sequence it is fired, what it hands back when fired alone: the
    calls paired with their results are the same in both sequences, up to
    that reordering. *)
Theorem call_order_is_irrelevant (cs cs' : list call) (w : World) :
  Permutation cs cs' ->
  final (run (invoke_all cs) w) = final (run (invoke_all cs') w) /\
  trace (run (invoke_all cs) w) = trace (run (invoke_all cs') w) /\
  exists vs vs' : list value,
    res (run (invoke_all cs) w) = Returned vs /\
    res (run (invoke_all cs') w) = Returned vs' /\
    Forall2 (fun c v => res (run (invoke c) w) = Returned v) cs vs /\
    Forall2 (fun c v => res (run (invoke c) w) = Returned v) cs' vs' /\
    Permutation (combine cs vs) (combine cs' vs').
Proof.
  intros Hp.
  rewrite (call_sequence_is_silent cs w), (call_sequence_is_silent cs' w); simpl.
  split; [reflexivity|]. split; [reflexivity|].
  do 2 eexists. split; [reflexivity|]. split; [reflexivity|].
  split; [apply alone_results|]. split; [apply alone_results|].
  rewrite !combine_with_results.
  apply Permutation_map. exact Hp.
Qed.

Lemma call_order_is_irrelevant_witness :
  Permutation
    [CallGenerateUniqueId 8 16; CallSendResponse 24 32 42 4096 2;
     CallSendNotification 24 32 4096 2]
    [CallSendResponse 24 32 42 4096 2; CallGenerateUniqueId 8 16;
     CallSendNotification 24 32 4096 2] /\
  exists vs vs' : list value,
    res (run (invoke_all
                [CallGenerateUniqueId 8 16; CallSendResponse 24 32 42 4096 2;
                 CallSendNotification 24 32 4096 2])
             (mkWorld {[ 4096 := x7b; 4097 := x7d ]} [])) = Returned vs /\
    res (run (invoke_all
                [CallSendResponse 24 32 42 4096 2; CallGenerateUniqueId 8 16;
                 CallSendNotification 24 32 4096 2])
             (mkWorld {[ 4096 := x7b; 4097 := x7d ]} [])) = Returned vs' /\
    Permutation
      (combine [CallGenerateUniqueId 8 16; CallSendResponse 24 32 42 4096 2;
                CallSendNotification 24 32 4096 2] vs)
      (combine [CallSendResponse 24 32 42 4096 2; CallGenerateUniqueId 8 16;
                CallSendNotification 24 32 4096 2] vs').
Proof.
  assert (Hp : Permutation
                 [CallGenerateUniqueId 8 16; CallSendResponse 24 32 42 4096 2;
                  CallSendNotification 24 32 4096 2]
                 [CallSendResponse 24 32 42 4096 2; CallGenerateUniqueId 8 16;
                  CallSendNotification 24 32 4096 2])
    by apply perm_swap.
  split; [exact Hp|].
  destruct (call_order_is_irrelevant _ _
              (mkWorld {[ 4096 := x7b; 4097 := x7d ]} []) Hp)
    as (_ & _ & vs & vs' & Hvs & Hvs' & _ & _ & Hperm).
  exists vs, vs'. split; [exact Hvs|]. split; [exact Hvs'|]. exact Hperm.
Defined.

(** X3: a call to the table is invisible to the code around it.  Placed at
    any point of any caller, after a part [m] that may read, write, print,
    throw or crash and before a part [f] that may do the same, the call
    changes nothing of the caller's run: outcome, final world and trace are
    those of the caller without the call. *)
Theorem call_is_invisible_in_caller
    {A B : Type} (m : prog A) (f : A -> prog B) (c : call) (w : World) :
  run (x <- m ;; invoke c ;; f x) w = run (x <- m ;; f x) w.
Proof.
  rewrite !run_bind.
  apply followed_by_ext.
  intros a w'. rewrite invoke_then. reflexivity.
Qed.

(** X4: a callback neither masks nor causes a failure of its caller.  When
    the code before the call returns, the call hands back its fixed result;
    when that code throws or crashes, the call is not reached and the failure
    is reported as it is.  Either way the world and the trace are those the
    caller's code left. *)
Theorem call_does_not_mask_failure
    {A : Type} (m : prog A) (c : call) (w : World) :
  res (run (m ;; invoke c) w)
  = match res (run m w) with
    | Returned _ => Returned (match stub_of c with
                              | generateUniqueId => VInt64 0
                              | _ => VVoid
                              end)
    | Thrown e => Thrown e
    | Crashed => Crashed
    end /\
  final (run (m ;; invoke c) w) = final (run m w) /\
  trace (run (m ;; invoke c) w) = trace (run m w).
Proof.
  rewrite run_bind. unfold followed_by.
  destruct (res (run m w)) as [a | e |]; simpl.
  - rewrite (invoke_silent c (final (run m w))); simpl.
    rewrite app_nil_r. repeat split.
  - repeat split.
  - repeat split.
Qed.
